(** * quorum-tools: boot/lib/encrypted-file.js

    A shallow embedding of [getServiceClient] and of the class
    [KeyVaultEncryptedFile] (constructor, [write], [read]), together with
    the properties of the module's contract.

    JavaScript values are an inductive type, objects of the class live in a
    heap indexed by locations, promises are run to quiescence, and the two
    external collaborators (the AWS KMS client and the promisified
    [fs-extra] calls) are oracles of an environment record. *)

From Stdlib Require Import Floats.SpecFloat.
From stdpp Require Import gmap strings list fin_maps pretty.

Local Open Scope string_scope.

(** ** JavaScript values *)

(** Primitive values.  Numbers are IEEE-754 doubles, kept in the
    constructor form of [spec_float]: [S754_zero s] is [+0]/[-0],
    [S754_nan] is [NaN]. *)
Inductive Prim : Type :=
| JUndefined
| JNull
| JBool (b : bool)
| JNumber (f : spec_float)
| JBigInt (z : Z)
| JString (s : string)
| JSymbol (description : string).

(** A value is a primitive or an object.  Of an object the module only
    ever observes its truthiness and its conversion to a primitive, so an
    object is represented by the primitive that [ToPrimitive] yields for
    it (["aws"] for [['aws']] and [new String('aws')],
    ["[object Object]"] for [{}]). *)
Inductive Val : Type :=
| VPrim (p : Prim)
| VObject (toPrimitive : Prim).

(** Error objects that this module creates or that reach it. *)
Inductive Error : Type :=
| Err (message : string)                       (* [new Error(message)] *)
| TypeErr (message : string)                   (* raised by the runtime *)
| SystemError (code syscall path : string)     (* Node [fs] failures *)
| SystemCallError (code syscall : string)      (* the same, on an open file:
                                                  the error has no path *)
| ServiceError (code message : string).        (* AWS SDK request failures *)

Definition ToPrimitive (v : Val) : Prim :=
  match v with
  | VPrim p => p
  | VObject p => p
  end.

(** [ToBoolean]: the falsy values are [undefined], [null], [false], [+0],
    [-0], [NaN], [0n] and the empty String; every object is truthy. *)
Definition ToBoolean (v : Val) : bool :=
  match v with
  | VPrim JUndefined => false
  | VPrim JNull => false
  | VPrim (JBool b) => b
  | VPrim (JNumber (S754_zero _)) => false
  | VPrim (JNumber S754_nan) => false
  | VPrim (JNumber _) => true
  | VPrim (JBigInt z) => negb (Z.eqb z 0)
  | VPrim (JString s) => negb (String.eqb s EmptyString)
  | VPrim (JSymbol _) => true
  | VObject _ => true
  end.

(** [x == 'aws'] for a primitive [x]: IsLooselyEqual with the String
    ['aws'] on the right.  A Number, and a Boolean after [ToNumber], is
    compared with [ToNumber('aws')], which is [NaN]; a BigInt with
    [StringToBigInt('aws')], which is undefined; [undefined] and [null] are
    loosely equal only to each other; a Symbol is equal to no String. *)
Definition prim_loosely_equals_aws (x : Prim) : bool :=
  match x with
  | JString s => String.eqb s "aws"
  | JUndefined | JNull => false
  | JBool _ | JNumber _ => false
  | JBigInt _ => false
  | JSymbol _ => false
  end.

(** For an object on the left the comparison is made with its primitive. *)
Definition loosely_equals_aws (x : Val) : bool :=
  prim_loosely_equals_aws (ToPrimitive x).

Definition Bytes : Type := list Byte.byte.
Definition loc : Type := nat.

(** ** Objects of the module *)

(** The [options] bag: property lookup of a missing key is [undefined]. *)
Definition prop (options : gmap string Val) (key : string) : Val :=
  default (VPrim JUndefined) (options !! key).

(** What [new AWS.KMS({...})] is bound to. *)
Record KMSClient : Type := mkKMS {
  apiVersion : string;
  region : Val;
  accessKeyId : Val;
  secretAccessKey : Val
}.

(** An instance of [KeyVaultEncryptedFile]: each property is [None] until
    the constructor assigns it. *)
Record Instance : Type := mkInstance {
  filepath : option string;
  client : option KMSClient;
  masterKeyId : option Val
}.

Definition no_properties : Instance := mkInstance None None None.

(** [this.filepath = v], [this.client = v], [this.masterKeyId = v]. *)
Definition set_filepath (v : string) (o : Instance) : Instance :=
  mkInstance (Some v) (client o) (masterKeyId o).

Definition set_client (v : KMSClient) (o : Instance) : Instance :=
  mkInstance (filepath o) (Some v) (masterKeyId o).

Definition set_masterKeyId (v : Val) (o : Instance) : Instance :=
  mkInstance (filepath o) (client o) (Some v).

(** ** Observable events *)

Inductive Level : Type := INFO | ERROR.

Inductive LogArg : Type :=
| LStr (s : string)
| LVal (v : Val)
| LOptions (o : gmap string Val)
| LErr (e : Error).

(** One entry per log line, per request sent to the key vault, per call of
    the filesystem and per promise rejection that nobody handles; requests
    and filesystem calls carry their result. *)
Inductive Event : Type :=
| EvLog (l : Level) (args : list LogArg)
| EvEncrypt (c : KMSClient) (KeyId : Val) (Plaintext : Bytes) (res : Error + Bytes)
| EvDecrypt (c : KMSClient) (CiphertextBlob : Bytes) (res : Error + Bytes)
| EvReadFile (path : string) (res : Error + Bytes)
| EvWriteFile (path : string) (data : Bytes) (res : option Error)
| EvUnhandledRejection (e : Error).

(** How [writeFile] can fail.  It opens the file for writing, which
    creates it or truncates it, and then writes the bytes: the failure is
    either at the open ([EACCES], [EISDIR], ...), and the file is as it
    was, or during the writing ([ENOSPC], [EIO], ...), and the file holds
    the bytes that got through. *)
Inductive WriteFault : Type :=
| AtOpen (code : string)
| WhileWriting (code : string) (written : nat).

(** ** The environment

    What lies outside the module: the runtime's Number-to-String
    conversion, the answers of the KMS service, and the failures of the
    filesystem.  Each oracle sees the events so far (newest first), so a
    service may answer differently on every call.  A fault of [readFile]
    is the [code] of the system error. *)
Record Env : Type := mkEnv {
  Number_toString : spec_float -> string;
  kms_encrypt : list Event -> KMSClient -> Val -> Bytes -> Error + Bytes;
  kms_decrypt : list Event -> KMSClient -> Bytes -> Error + Bytes;
  fs_read_fault : list Event -> string -> option string;
  fs_write_fault : list Event -> string -> option WriteFault
}.

(** ** The world: heap of instances, files on disk, events (newest first) *)
Record World : Type := mkWorld {
  heap : gmap loc Instance;
  files : gmap string Bytes;
  trace : list Event
}.

(** ** Computations *)

(** How the evaluation of a function body ends: normally, by a [throw], or
    suspended for ever at an [await] of a promise that never settles. *)
Inductive Completion (A : Type) : Type :=
| Normal (a : A)
| Thrown (e : Error)
| Suspended.
Arguments Normal {A} a.
Arguments Thrown {A} e.
Arguments Suspended {A}.

(** A promise is represented by the state it is in once every callback it
    depends on has run. *)
Inductive Promise (A : Type) : Type :=
| Pending
| Fulfilled (a : A)
| Rejected (e : Error).
Arguments Pending {A}.
Arguments Fulfilled {A} a.
Arguments Rejected {A} e.

Definition Comp (S A : Type) : Type := S -> Completion A * S.

Definition ret {S A} (a : A) : Comp S A := fun s => (Normal a, s).

Definition throw {S A} (e : Error) : Comp S A := fun s => (Thrown e, s).

Definition bind {S A B} (c : Comp S A) (k : A -> Comp S B) : Comp S B :=
  fun s =>
    match c s with
    | (Normal a, s') => k a s'
    | (Thrown e, s') => (Thrown e, s')
    | (Suspended, s') => (Suspended, s')
    end.

Declare Scope comp_scope.
Delimit Scope comp_scope with comp.
Bind Scope comp_scope with Comp.
Notation "x <- c ;; k" := (bind c (fun x => k))
  (at level 100, c at next level, right associativity) : comp_scope.
Notation "c ;; k" := (bind c (fun _ => k))
  (at level 100, right associativity) : comp_scope.
Local Open Scope comp_scope.

(** A computation on the world, run inside the executor of a promise whose
    cell is the first component of the state. *)
Definition liftW {R A} (c : Comp World A) : Comp (Promise R * World) A :=
  fun s =>
    match c (snd s) with
    | (r, w') => (r, (fst s, w'))
    end.

(** [resolve(v)] and [reject(e)] settle the promise if it is still pending
    and do nothing otherwise. *)
Definition resolve {R S} (v : R) : Comp (Promise R * S) unit :=
  fun s =>
    match fst s with
    | Pending => (Normal tt, (Fulfilled v, snd s))
    | _ => (Normal tt, s)
    end.

Definition reject {R S} (e : Error) : Comp (Promise R * S) unit :=
  fun s =>
    match fst s with
    | Pending => (Normal tt, (Rejected e, snd s))
    | _ => (Normal tt, s)
    end.

(** [new Promise(executor)]: the executor runs with a pending cell; an
    exception that escapes it rejects the promise if it is still pending. *)
Definition new_Promise {R S} (executor : Comp (Promise R * S) unit)
  : Comp S (Promise R) :=
  fun s =>
    match executor (Pending, s) with
    | (Thrown e, (Pending, s')) => (Normal (Rejected e), s')
    | (_, (p, s')) => (Normal p, s')
    end.

(** An [async] function never throws: its promise is fulfilled with the
    value of the body, rejected with what the body throws, and stays
    pending when the body is suspended for ever. *)
Definition async_fn {S A} (body : Comp S A) : Comp S (Promise A) :=
  fun s =>
    match body s with
    | (Normal a, s') => (Normal (Fulfilled a), s')
    | (Thrown e, s') => (Normal (Rejected e), s')
    | (Suspended, s') => (Normal Pending, s')
    end.

Definition await {S A} (p : Promise A) : Comp S A :=
  fun s =>
    match p with
    | Fulfilled a => (Normal a, s)
    | Rejected e => (Thrown e, s)
    | Pending => (Suspended, s)
    end.

(** ** Primitive operations on the world *)

Definition emit (e : Event) : Comp World unit :=
  fun w => (Normal tt, mkWorld (heap w) (files w) (e :: trace w)).

(** The logger's level is ['info']: both levels are written. *)
Definition logger_info (args : list LogArg) : Comp World unit :=
  emit (EvLog INFO args).

Definition logger_error (args : list LogArg) : Comp World unit :=
  emit (EvLog ERROR args).

(** [new KeyVaultEncryptedFile]: a fresh object without properties. *)
Definition new_object : Comp World loc :=
  fun w =>
    let this := fresh (dom (heap w)) in
    (Normal this, mkWorld (<[this := no_properties]> (heap w)) (files w) (trace w)).

Definition object_at (w : World) (this : loc) : Instance :=
  default no_properties (heap w !! this).

Definition set_property (this : loc) (f : Instance -> Instance) : Comp World unit :=
  fun w =>
    (Normal tt, mkWorld (<[this := f (object_at w this)]> (heap w)) (files w) (trace w)).

Definition get_filepath (this : loc) : Comp World (option string) :=
  fun w => (Normal (filepath (object_at w this)), w).

(** [this.masterKeyId]: [undefined] while the property is not set. *)
Definition get_masterKeyId (this : loc) : Comp World Val :=
  fun w => (Normal (default (VPrim JUndefined) (masterKeyId (object_at w this))), w).

(** [this.client.method]: a TypeError while [this.client] is [undefined]. *)
Definition get_client (this : loc) (method : string) : Comp World KMSClient :=
  fun w =>
    match client (object_at w this) with
    | Some c => (Normal c, w)
    | None =>
        (Thrown (TypeErr ("Cannot read properties of undefined (reading '"
                            ++ method ++ "')")), w)
    end.

(** A promise returned to a caller that ignores it: a rejection is
    reported by the runtime as unhandled. *)
Definition discard_promise {A} (p : Promise A) : Comp World unit :=
  match p with
  | Rejected e => emit (EvUnhandledRejection e)
  | _ => ret tt
  end.

Definition settled {A} (r : Error + A) : Promise A :=
  match r with
  | inl e => Rejected e
  | inr a => Fulfilled a
  end.

Section Module_encrypted_file.

Variable env : Env.

(** ** Runtime conversions *)

(** [ToString] of a primitive; a Symbol cannot be converted. *)
Definition ToString (p : Prim) : Error + string :=
  match p with
  | JUndefined => inr "undefined"
  | JNull => inr "null"
  | JBool true => inr "true"
  | JBool false => inr "false"
  | JNumber f => inr (Number_toString env f)
  | JBigInt z => inr (pretty z)
  | JString s => inr s
  | JSymbol _ => inl (TypeErr "Cannot convert a Symbol value to a string")
  end.

(** ['lit' + v]: the left operand is a String, so the result is the
    concatenation with [ToString(ToPrimitive(v))]. *)
Definition string_plus {S} (lit : string) (v : Val) : Comp S string :=
  match ToString (ToPrimitive v) with
  | inl e => throw e
  | inr s => ret (lit ++ s)
  end.

(** ** The promisified filesystem calls *)

Definition invalid_path : Error :=
  TypeErr "The 'path' argument must be of type string or an instance of Buffer or URL. Received undefined".

Definition fs_readFile (path : option string) : Comp World (Promise Bytes) :=
  fun w =>
    match path with
    | None => (Normal (Rejected invalid_path), w)
    | Some p =>
        let res :=
          match fs_read_fault env (trace w) p with
          | Some code => inl (SystemError code "open" p)
          | None =>
              match files w !! p with
              | Some content => inr content
              | None => inl (SystemError "ENOENT" "open" p)
              end
          end in
        (Normal (settled res),
         mkWorld (heap w) (files w) (EvReadFile p res :: trace w))
    end.

(** [writeFile] creates or overwrites the whole file; when it fails
    during the writing, what is left is the part of [data] that was
    written. *)
Definition fs_writeFile (path : option string) (data : Bytes)
  : Comp World (Promise unit) :=
  fun w =>
    match path with
    | None => (Normal (Rejected invalid_path), w)
    | Some p =>
        match fs_write_fault env (trace w) p with
        | Some (AtOpen code) =>
            let e := SystemError code "open" p in
            (Normal (Rejected e),
             mkWorld (heap w) (files w) (EvWriteFile p data (Some e) :: trace w))
        | Some (WhileWriting code written) =>
            let e := SystemCallError code "write" in
            (Normal (Rejected e),
             mkWorld (heap w) (<[p := take written data]> (files w))
                     (EvWriteFile p data (Some e) :: trace w))
        | None =>
            (Normal (Fulfilled tt),
             mkWorld (heap w) (<[p := data]> (files w))
                     (EvWriteFile p data None :: trace w))
        end
    end.

(** ** The KMS client

    [client.encrypt(params, callback)] sends one request and calls
    [callback(err, data)] once with its outcome; what the callback returns
    is ignored. *)
Definition request_encrypt (c : KMSClient) (KeyId : Val) (Plaintext : Bytes)
  : Comp World (Error + Bytes) :=
  fun w =>
    let res := kms_encrypt env (trace w) c KeyId Plaintext in
    (Normal res,
     mkWorld (heap w) (files w) (EvEncrypt c KeyId Plaintext res :: trace w)).

Definition request_decrypt (c : KMSClient) (CiphertextBlob : Bytes)
  : Comp World (Error + Bytes) :=
  fun w =>
    let res := kms_decrypt env (trace w) c CiphertextBlob in
    (Normal res,
     mkWorld (heap w) (files w) (EvDecrypt c CiphertextBlob res :: trace w)).

Definition KMS_encrypt {R A} (c : KMSClient) (KeyId : Val) (Plaintext : Bytes)
  (callback : Error + Bytes -> Comp (Promise R * World) (Promise A))
  : Comp (Promise R * World) unit :=
  res <- liftW (request_encrypt c KeyId Plaintext) ;;
  returned <- callback res ;;
  liftW (discard_promise returned).

Definition KMS_decrypt {R} (c : KMSClient) (CiphertextBlob : Bytes)
  (callback : Error + Bytes -> Comp (Promise R * World) unit)
  : Comp (Promise R * World) unit :=
  res <- liftW (request_decrypt c CiphertextBlob) ;;
  callback res.

(** ** The module *)

Definition AWS_KMS_VERSION : string := "2014-11-01".

Definition getServiceClient (provider : Val) (options : gmap string Val)
  : Comp World KMSClient :=
  if loosely_equals_aws provider then
    logger_info [LStr "Provder is AWS. Configuration details: "; LOptions options] ;;
    ret (mkKMS AWS_KMS_VERSION
               (prop options "region")
               (prop options "api-key")
               (prop options "api-secret"))
  else
    message <- string_plus "Unsupported key vault provider: " provider ;;
    throw (Err message).

Definition constructor (filepath : string) (options : gmap string Val)
  : Comp World loc :=
  this <- new_object ;;
  logger_info [LStr "filepath: "; LStr filepath; LStr ", CMK: ";
               LVal (prop options "key-id")] ;;
  set_property this (set_filepath filepath) ;;
  c <- getServiceClient (prop options "provider") options ;;
  set_property this (set_client c) ;;
  set_property this (set_masterKeyId
    (if ToBoolean (prop options "key-id")
     then prop options "key-id"
     else VPrim (JString "alias/kaleido"))) ;;
  ret this.

Definition write (this : loc) (plainTextData : Bytes) : Comp World (Promise unit) :=
  new_Promise (
    c <- liftW (get_client this "encrypt") ;;
    KeyId <- liftW (get_masterKeyId this) ;;
    KMS_encrypt c KeyId plainTextData (fun outcome =>
      async_fn (
        match outcome with
        | inl err =>
            liftW (logger_error [LStr "Failed to encrypt data with KMS."; LErr err]) ;;
            reject err
        | inr CiphertextBlob =>
            path <- liftW (get_filepath this) ;;
            written <- liftW (fs_writeFile path CiphertextBlob) ;;
            await written ;;
            resolve tt
        end))).

Definition read (this : loc) : Comp World (Promise Bytes) :=
  async_fn (
    path <- get_filepath this ;;
    file <- fs_readFile path ;;
    encrypted <- await file ;;
    returned <- new_Promise (
      c <- liftW (get_client this "decrypt") ;;
      KMS_decrypt c encrypted (fun outcome =>
        match outcome with
        | inl err =>
            liftW (logger_error [LStr "Failed to decrypt data with KMS."; LErr err]) ;;
            reject err
        | inr Plaintext => resolve Plaintext
        end)) ;;
    await returned).

End Module_encrypted_file.

(** ** Names for the events and results of one call *)

Definition undefined_client (method : string) : Error :=
  TypeErr ("Cannot read properties of undefined (reading '" ++ method ++ "')").

Definition encrypt_failure_log (err : Error) : Event :=
  EvLog ERROR [LStr "Failed to encrypt data with KMS."; LErr err].

Definition decrypt_failure_log (err : Error) : Event :=
  EvLog ERROR [LStr "Failed to decrypt data with KMS."; LErr err].

Definition with_events (evs : list Event) (w : World) : World :=
  mkWorld (heap w) (files w) (evs ++ trace w).

(** What [fs.readFile(f)] answers in world [w]. *)
Definition readFile_result (env : Env) (w : World) (f : string) : Error + Bytes :=
  match fs_read_fault env (trace w) f with
  | Some code => inl (SystemError code "open" f)
  | None =>
      match files w !! f with
      | Some content => inr content
      | None => inl (SystemError "ENOENT" "open" f)
      end
  end.

Definition resolved_key (options : gmap string Val) : Val :=
  if ToBoolean (prop options "key-id")
  then prop options "key-id"
  else VPrim (JString "alias/kaleido").

Definition bound_client (options : gmap string Val) : KMSClient :=
  mkKMS "2014-11-01" (prop options "region") (prop options "api-key")
        (prop options "api-secret").

Definition constructor_log (f : string) (options : gmap string Val) : Event :=
  EvLog INFO [LStr "filepath: "; LStr f; LStr ", CMK: ";
              LVal (prop options "key-id")].

Definition provider_log (options : gmap string Val) : Event :=
  EvLog INFO [LStr "Provder is AWS. Configuration details: "; LOptions options].

(** ** Sequences of operations

    A caller's operations, one after the other, each run until nothing
    more can happen. *)
Inductive Op : Type :=
| OpWrite (this : loc) (plainTextData : Bytes)
| OpRead (this : loc).

Inductive Outcome : Type :=
| WriteOutcome (r : Completion (Promise unit))
| ReadOutcome (r : Completion (Promise Bytes)).

Definition run_op (env : Env) (op : Op) (w : World) : Outcome * World :=
  match op with
  | OpWrite this plainTextData =>
      match write env this plainTextData w with
      | (r, w') => (WriteOutcome r, w')
      end
  | OpRead this =>
      match read env this w with
      | (r, w') => (ReadOutcome r, w')
      end
  end.

Fixpoint run_ops (env : Env) (ops : list Op) (w : World) : World :=
  match ops with
  | [] => w
  | op :: rest => run_ops env rest (snd (run_op env op w))
  end.

(** ** Sample environments

    Used to evaluate the module on concrete inputs: a key vault that
    reverses the bytes over a filesystem without faults, a key vault that
    refuses every request, a filesystem that refuses every write, and a
    disk that fills up.  The samples never format a finite non-zero number. *)
Definition sample_Number_toString (f : spec_float) : string :=
  match f with
  | S754_zero _ => "0"
  | S754_infinity false => "Infinity"
  | S754_infinity true => "-Infinity"
  | S754_nan => "NaN"
  | S754_finite _ _ _ => "1"
  end.

Definition reversing_vault : Env :=
  mkEnv sample_Number_toString
        (fun _ _ _ Plaintext => inr (rev Plaintext))
        (fun _ _ CiphertextBlob => inr (rev CiphertextBlob))
        (fun _ _ => None)
        (fun _ _ => None).

Definition empty_world : World := mkWorld ∅ ∅ [].

Definition aws_options : gmap string Val :=
  <["provider" := VPrim (JString "aws")]>
  (<["region" := VPrim (JString "us-east-2")]>
  (<["api-key" := VPrim (JString "AKIA")]>
  (<["api-secret" := VPrim (JString "secret")]> ∅))).

Definition sample_bytes : Bytes := [Byte.x01; Byte.x02; Byte.x03].

Definition refusing_vault : Env :=
  mkEnv sample_Number_toString
        (fun _ _ _ _ => inl (ServiceError "AccessDeniedException" "not authorized"))
        (fun _ _ _ => inl (ServiceError "AccessDeniedException" "not authorized"))
        (fun _ _ => None)
        (fun _ _ => None).

Definition readonly_disk : Env :=
  mkEnv sample_Number_toString
        (fun _ _ _ Plaintext => inr (rev Plaintext))
        (fun _ _ CiphertextBlob => inr (rev CiphertextBlob))
        (fun _ _ => None)
        (fun _ _ => Some (AtOpen "EACCES")).

(** A disk with room for one file only: once a [writeFile] has
    succeeded, the next ones run out of space after one byte. *)
Definition filling_disk : Env :=
  mkEnv sample_Number_toString
        (fun _ _ _ Plaintext => inr (rev Plaintext))
        (fun _ _ CiphertextBlob => inr (rev CiphertextBlob))
        (fun _ _ => None)
        (fun history _ =>
           if existsb (fun ev => match ev with
                                 | EvWriteFile _ _ None => true
                                 | _ => false
                                 end) history
           then Some (WhileWriting "ENOSPC" 1)
           else None).

(** The world after [new KeyVaultEncryptedFile('/k', aws_options)] in the
    empty world: the store is the object at location [0]. *)
Definition sample_world : World :=
  snd (constructor reversing_vault "/k" aws_options empty_world).

Definition sentinel : Bytes := [Byte.xff; Byte.xfe].

Definition sample_world_with_file : World :=
  mkWorld (heap sample_world) (<["/k" := sentinel]> (files sample_world))
          (trace sample_world).

(** ** Vocabulary of the contract *)

(** A key vault that never refuses and whose [decrypt] undoes [encrypt]. *)
Definition faithful_vault (env : Env) : Prop :=
  forall history c k plaintext, exists blob,
    kms_encrypt env history c k plaintext = inr blob /\
    forall history', kms_decrypt env history' c blob = inr plaintext.

(** A filesystem in which what was written can be read back. *)
Definition faithful_filesystem (env : Env) : Prop :=
  forall history f,
    fs_write_fault env history f = None /\ fs_read_fault env history f = None.

(** The values for which [ToBoolean] is false. *)
Definition falsy_values : list Val :=
  [VPrim JUndefined; VPrim JNull; VPrim (JBool false);
   VPrim (JNumber (S754_zero false)); VPrim (JNumber (S754_zero true));
   VPrim (JNumber S754_nan); VPrim (JBigInt 0); VPrim (JString EmptyString)].

Definition op_this (op : Op) : loc :=
  match op with
  | OpWrite this _ => this
  | OpRead this => this
  end.

(** Read off a list of events: the blobs that the key vault returned from
    encrypt requests, the byte strings handed to [writeFile], the key
    identifiers sent with encrypt requests, and the blobs sent with
    decrypt requests. *)
Definition vault_blobs (evs : list Event) : list Bytes :=
  omap (fun ev => match ev with
                  | EvEncrypt _ _ _ (inr blob) => Some blob
                  | _ => None
                  end) evs.

Definition disk_writes (evs : list Event) : list Bytes :=
  omap (fun ev => match ev with
                  | EvWriteFile _ data _ => Some data
                  | _ => None
                  end) evs.

Definition encrypt_keys (evs : list Event) : list Val :=
  omap (fun ev => match ev with
                  | EvEncrypt _ KeyId _ _ => Some KeyId
                  | _ => None
                  end) evs.

Definition decrypt_requests (evs : list Event) : list Bytes :=
  omap (fun ev => match ev with
                  | EvDecrypt _ blob _ => Some blob
                  | _ => None
                  end) evs.

(** In a list of events (newest first), every call of [writeFile] comes
    right after an encrypt request that succeeded, and hands over exactly
    the blob of its answer. *)
Fixpoint writes_follow_encrypt (evs : list Event) : Prop :=
  match evs with
  | [] => True
  | EvWriteFile _ data _ :: rest =>
      match rest with
      | EvEncrypt _ _ _ (inr blob) :: _ => data = blob
      | _ => False
      end /\ writes_follow_encrypt rest
  | _ :: rest => writes_follow_encrypt rest
  end.

(** The oldest event of the list is not a call of [writeFile]. *)
Definition starts_without_write (evs : list Event) : Prop :=
  match last evs with
  | Some (EvWriteFile _ _ _) => False
  | _ => True
  end.

(** The events that happened between two worlds. *)
Definition new_events (before after : World) : list Event :=
  take (length (trace after) - length (trace before)) (trace after).

(** The ciphertext of the most recent [write] to [path] whose promise was
    fulfilled, along a sequence of operations; [known] is the one before
    the sequence starts. *)
Fixpoint last_written (env : Env) (path : string) (ops : list Op) (w : World)
  (known : option Bytes) : option Bytes :=
  match ops with
  | [] => known
  | op :: rest =>
      let w' := snd (run_op env op w) in
      let known' :=
        match op, fst (run_op env op w) with
        | OpWrite this _, WriteOutcome (Normal (Fulfilled _)) =>
            if decide (filepath (object_at w this) = Some path)
            then head (vault_blobs (new_events w w'))
            else known
        | _, _ => known
        end in
      last_written env path rest w' known'
  end.

(** No [writeFile] on [path] failed during the writing. *)
Definition no_partial_write (path : string) (evs : list Event) : Prop :=
  Forall (fun ev => match ev with
                    | EvWriteFile p _ (Some (SystemCallError _ _)) => p <> path
                    | _ => True
                    end) evs.

(** ** Further vocabulary: counting and classifying events *)

Definition is_log (ev : Event) : Prop :=
  match ev with
  | EvLog _ _ => True
  | _ => False
  end.

Definition is_vault_request (ev : Event) : bool :=
  match ev with
  | EvEncrypt _ _ _ _ | EvDecrypt _ _ _ => true
  | _ => false
  end.

Definition is_fs_call (ev : Event) : bool :=
  match ev with
  | EvReadFile _ _ | EvWriteFile _ _ _ => true
  | _ => false
  end.

Definition count_events (p : Event -> bool) (evs : list Event) : nat :=
  length (List.filter p evs).

Definition unhandled_rejections (evs : list Event) : list Error :=
  omap (fun ev => match ev with
                  | EvUnhandledRejection e => Some e
                  | _ => None
                  end) evs.

Definition encrypt_plaintexts (evs : list Event) : list Bytes :=
  omap (fun ev => match ev with
                  | EvEncrypt _ _ Plaintext _ => Some Plaintext
                  | _ => None
                  end) evs.

Definition write_plaintexts (ops : list Op) : list Bytes :=
  omap (fun op => match op with
                  | OpWrite _ plainTextData => Some plainTextData
                  | OpRead _ => None
                  end) ops.

(** In a list of events (newest first), every decrypt request comes right
    after a [readFile] that succeeded, and sends exactly the bytes read. *)
Fixpoint decrypts_follow_read (evs : list Event) : Prop :=
  match evs with
  | [] => True
  | EvDecrypt _ blob _ :: rest =>
      match rest with
      | EvReadFile _ (inr content) :: _ => blob = content
      | _ => False
      end /\ decrypts_follow_read rest
  | _ :: rest => decrypts_follow_read rest
  end.

(** The oldest event of the list is not a decrypt request. *)
Definition starts_without_decrypt (evs : list Event) : Prop :=
  match last evs with
  | Some (EvDecrypt _ _ _) => False
  | _ => True
  end.

(** A second store on the same file, configured with its own key:
    the object at location [1]. *)
Definition custom_options : gmap string Val :=
  <["key-id" := VPrim (JString "custom-key")]> aws_options.

Definition two_stores_world : World :=
  snd (constructor reversing_vault "/k" custom_options sample_world).

(** * Properties *)

(** ** What one call does *)

(** One step of symbolic evaluation; [Ho] names the object under [this]. *)
Ltac run_step Ho :=
  cbn [fst snd heap files trace filepath client masterKeyId app];
  rewrite <- ?Ho;
  cbn [fst snd heap files trace filepath client masterKeyId app].

Lemma object_at_lookup w this o :
  heap w !! this = Some o -> object_at w this = o.
Proof. intros H. unfold object_at. rewrite H. reflexivity. Qed.

(** Reading the properties of a known object. *)
Ltac read_object Hobj :=
  rewrite ?(object_at_lookup _ _ _ Hobj);
  cbn [filepath client masterKeyId default from_option id].

(** [write], branch by branch. *)
Lemma write_cases env this plainTextData w :
  write env this plainTextData w =
  match client (object_at w this) with
  | None => (Normal (Rejected (undefined_client "encrypt")), w)
  | Some c =>
      let k := default (VPrim JUndefined) (masterKeyId (object_at w this)) in
      let res := kms_encrypt env (trace w) c k plainTextData in
      let sent := EvEncrypt c k plainTextData res in
      match res with
      | inl err =>
          (Normal (Rejected err), with_events [encrypt_failure_log err; sent] w)
      | inr blob =>
          match filepath (object_at w this) with
          | None =>
              (Normal Pending,
               with_events [EvUnhandledRejection invalid_path; sent] w)
          | Some f =>
              match fs_write_fault env (sent :: trace w) f with
              | Some (AtOpen code) =>
                  let e := SystemError code "open" f in
                  (Normal Pending,
                   with_events [EvUnhandledRejection e;
                                EvWriteFile f blob (Some e); sent] w)
              | Some (WhileWriting code written) =>
                  let e := SystemCallError code "write" in
                  (Normal Pending,
                   mkWorld (heap w) (<[f := take written blob]> (files w))
                           ([EvUnhandledRejection e;
                             EvWriteFile f blob (Some e); sent] ++ trace w))
              | None =>
                  (Normal (Fulfilled tt),
                   mkWorld (heap w) (<[f := blob]> (files w))
                           ([EvWriteFile f blob None; sent] ++ trace w))
              end
          end
      end
  end.
Proof.
  unfold write, new_Promise, KMS_encrypt, async_fn, liftW, bind, get_client,
    get_masterKeyId, request_encrypt, get_filepath, fs_writeFile,
    discard_promise, await, resolve, reject, logger_error, emit, ret,
    with_events, undefined_client, encrypt_failure_log, object_at.
  destruct w as [h fl tr].
  remember (default no_properties (h !! this)) as o eqn:Ho.
  destruct o as [f c k]. run_step Ho.
  destruct c as [c|]; [|reflexivity]. run_step Ho.
  destruct (kms_encrypt env tr c _ plainTextData) as [err|blob];
    run_step Ho; [reflexivity|].
  destruct f as [f|]; [|reflexivity]. run_step Ho.
  destruct (fs_write_fault env _ f) as [[code|code written]|]; reflexivity.
Qed.

(** [read], branch by branch. *)
Lemma read_cases env this w :
  read env this w =
  match filepath (object_at w this) with
  | None => (Normal (Rejected invalid_path), w)
  | Some f =>
      let got := EvReadFile f (readFile_result env w f) in
      match readFile_result env w f with
      | inl e => (Normal (Rejected e), with_events [got] w)
      | inr encrypted =>
          match client (object_at w this) with
          | None =>
              (Normal (Rejected (undefined_client "decrypt")), with_events [got] w)
          | Some c =>
              let res := kms_decrypt env (got :: trace w) c encrypted in
              let sent := EvDecrypt c encrypted res in
              match res with
              | inl err =>
                  (Normal (Rejected err),
                   with_events [decrypt_failure_log err; sent; got] w)
              | inr Plaintext =>
                  (Normal (Fulfilled Plaintext), with_events [sent; got] w)
              end
          end
      end
  end.
Proof.
  unfold read, new_Promise, KMS_decrypt, async_fn, liftW, bind, get_client,
    request_decrypt, get_filepath, fs_readFile, readFile_result, settled,
    await, resolve, reject, logger_error, emit, ret,
    with_events, undefined_client, decrypt_failure_log, object_at.
  destruct w as [h fl tr].
  remember (default no_properties (h !! this)) as o eqn:Ho.
  destruct o as [f c k]. run_step Ho.
  destruct f as [f|]; [|reflexivity]. run_step Ho.
  destruct (fs_read_fault env tr f) as [code|]; [reflexivity|].
  destruct (fl !! f) as [encrypted|]; [|reflexivity]. run_step Ho.
  destruct c as [c|]; [|reflexivity]. run_step Ho.
  destruct (kms_decrypt env _ c encrypted) as [err|Plaintext]; reflexivity.
Qed.

(** [getServiceClient], branch by branch. *)
Lemma getServiceClient_cases env provider options w :
  getServiceClient env provider options w =
  if loosely_equals_aws provider then
    (Normal (mkKMS "2014-11-01" (prop options "region")
                   (prop options "api-key") (prop options "api-secret")),
     with_events
       [EvLog INFO [LStr "Provder is AWS. Configuration details: ";
                    LOptions options]] w)
  else
    match ToString env (ToPrimitive provider) with
    | inr s => (Thrown (Err ("Unsupported key vault provider: " ++ s)), w)
    | inl e => (Thrown e, w)
    end.
Proof.
  unfold getServiceClient, string_plus, bind, logger_info, emit, ret, throw,
    with_events.
  destruct (loosely_equals_aws provider); [reflexivity|].
  destruct (ToString env (ToPrimitive provider)); reflexivity.
Qed.

(** The constructor, branch by branch. *)
Lemma constructor_cases env f options w :
  constructor env f options w =
  let this := fresh (dom (heap w)) in
  if loosely_equals_aws (prop options "provider") then
    (Normal this,
     mkWorld (<[this := mkInstance (Some f) (Some (bound_client options))
                                   (Some (resolved_key options))]> (heap w))
             (files w)
             (provider_log options :: constructor_log f options :: trace w))
  else
    (Thrown match ToString env (ToPrimitive (prop options "provider")) with
            | inr s => Err ("Unsupported key vault provider: " ++ s)
            | inl e => e
            end,
     mkWorld (<[this := mkInstance (Some f) None None]> (heap w))
             (files w) (constructor_log f options :: trace w)).
Proof.
  unfold constructor, bind at 1 2 3. unfold new_object, logger_info, emit.
  cbn [fst snd heap files trace].
  unfold set_property at 1, object_at. cbn [fst snd heap files trace].
  rewrite lookup_insert_eq, insert_insert_eq. cbn [default set_filepath
    no_properties filepath client masterKeyId].
  unfold bind at 1. rewrite getServiceClient_cases.
  destruct (loosely_equals_aws (prop options "provider")).
  - unfold with_events, bind, set_property, object_at, ret.
    cbn [fst snd heap files trace app].
    rewrite !lookup_insert_eq, !insert_insert_eq. reflexivity.
  - destruct (ToString env (ToPrimitive (prop options "provider")));
      reflexivity.
Qed.

(** The promise of [write] stays pending when the key vault answered and
    [writeFile] failed (here at the open): the rejection is raised inside
    the [async] callback of [encrypt], whose promise nobody observes. *)
Lemma write_pending_when_writeFile_fails env this f c k w plaintext blob code :
  heap w !! this = Some (mkInstance (Some f) (Some c) (Some k)) ->
  kms_encrypt env (trace w) c k plaintext = inr blob ->
  fs_write_fault env (EvEncrypt c k plaintext (inr blob) :: trace w) f
    = Some (AtOpen code) ->
  write env this plaintext w =
  (Normal Pending,
   with_events [EvUnhandledRejection (SystemError code "open" f);
                EvWriteFile f blob (Some (SystemError code "open" f));
                EvEncrypt c k plaintext (inr blob)] w).
Proof.
  intros Hobj Henc Hfault. rewrite write_cases. read_object Hobj. cbn zeta.
  rewrite Henc, Hfault. reflexivity.
Qed.

(** ** The contract of [write] and [read] *)

(** C1.  Round trip: with a key vault whose decrypt undoes encrypt and a
    filesystem that gives back what was written, [write(P)] is fulfilled
    and the [read()] that follows on the same store is fulfilled with
    exactly [P]. *)
Theorem C1_write_then_read_returns_plaintext env this f c k w plaintext :
  faithful_vault env ->
  faithful_filesystem env ->
  heap w !! this = Some (mkInstance (Some f) (Some c) (Some k)) ->
  exists w1 w2,
    write env this plaintext w = (Normal (Fulfilled tt), w1) /\
    read env this w1 = (Normal (Fulfilled plaintext), w2).
Proof.
  intros Hvault Hfs Hobj.
  destruct (Hvault (trace w) c k plaintext) as (blob & Henc & Hdec).
  rewrite write_cases. read_object Hobj. cbn zeta. rewrite Henc.
  destruct (Hfs (EvEncrypt c k plaintext (inr blob) :: trace w) f) as [-> _].
  eexists. eexists. split; [reflexivity|].
  rewrite read_cases.
  unfold object_at, readFile_result. cbn [heap files trace]. rewrite Hobj.
  cbn [filepath client default from_option id]. cbn zeta.
  match goal with |- context [fs_read_fault env ?h f] =>
    destruct (Hfs h f) as [_ ->] end.
  rewrite lookup_insert_eq. rewrite Hdec. reflexivity.
Qed.

Lemma C1_witness :
  exists w1 w2,
    write reversing_vault 0 sample_bytes sample_world = (Normal (Fulfilled tt), w1) /\
    read reversing_vault 0 w1 = (Normal (Fulfilled sample_bytes), w2).
Proof.
  apply (C1_write_then_read_returns_plaintext reversing_vault 0 "/k"
           (bound_client aws_options) (VPrim (JString "alias/kaleido"))).
  - intros history c k plaintext. exists (rev plaintext). split; [reflexivity|].
    intros history'. cbn. rewrite rev_involutive. reflexivity.
  - intros history f. split; reflexivity.
  - vm_compute. reflexivity.
Defined.

(** C6.  When the key vault refuses the encrypt request, the promise of
    [write] is rejected with the vault's own error; one request was sent
    (no retry), [writeFile] was not called, and every file is as it was. *)
Theorem C6_encrypt_failure_leaves_disk_untouched env this c w plaintext err :
  client (object_at w this) = Some c ->
  kms_encrypt env (trace w) c
    (default (VPrim JUndefined) (masterKeyId (object_at w this))) plaintext
    = inl err ->
  exists w',
    write env this plaintext w = (Normal (Rejected err), w') /\
    files w' = files w /\
    heap w' = heap w /\
    trace w' =
      ([encrypt_failure_log err;
        EvEncrypt c (default (VPrim JUndefined) (masterKeyId (object_at w this)))
                  plaintext (inl err)] ++ trace w)%list.
Proof.
  intros Hc Henc. rewrite write_cases, Hc. cbn zeta. rewrite Henc.
  eexists. split; [reflexivity|]. repeat split.
Qed.

Lemma C6_witness :
  exists w',
    write refusing_vault 0 sample_bytes sample_world_with_file
      = (Normal (Rejected (ServiceError "AccessDeniedException" "not authorized")), w') /\
    files w' = files sample_world_with_file /\
    heap w' = heap sample_world_with_file /\
    trace w' =
      ([encrypt_failure_log (ServiceError "AccessDeniedException" "not authorized");
       EvEncrypt (bound_client aws_options)
                 (default (VPrim JUndefined)
                    (masterKeyId (object_at sample_world_with_file 0)))
                 sample_bytes
                 (inl (ServiceError "AccessDeniedException" "not authorized"))]
       ++ trace sample_world_with_file)%list.
Proof.
  apply (C6_encrypt_failure_leaves_disk_untouched refusing_vault 0
           (bound_client aws_options) sample_world_with_file sample_bytes).
  - vm_compute. reflexivity.
  - reflexivity.
Defined.

(** C7.  The key vault answers and [writeFile] fails with [EACCES]: the
    promise of [write] is neither rejected nor fulfilled, it stays
    pending; the filesystem error ends as an unhandled rejection. *)
Theorem C7_write_stays_pending_when_writeFile_fails :
  write readonly_disk 0 sample_bytes sample_world =
  (Normal Pending,
   with_events
     [EvUnhandledRejection (SystemError "EACCES" "open" "/k");
      EvWriteFile "/k" (rev sample_bytes) (Some (SystemError "EACCES" "open" "/k"));
      EvEncrypt (bound_client aws_options) (VPrim (JString "alias/kaleido"))
                sample_bytes (inr (rev sample_bytes))]
     sample_world).
Proof.
  apply write_pending_when_writeFile_fails.
  - vm_compute. reflexivity.
  - reflexivity.
  - reflexivity.
Qed.

(** C5.  When the file of the store is missing, or the filesystem refuses
    to read it, the promise of [read] is rejected with the filesystem's
    error ([ENOENT] for a missing file, the fault's code otherwise) and
    the only thing that happened is the one [readFile] call: no decrypt
    request was sent. *)
Theorem C5_read_without_file_never_decrypts env this f w :
  filepath (object_at w this) = Some f ->
  files w !! f = None \/ is_Some (fs_read_fault env (trace w) f) ->
  exists code w',
    read env this w = (Normal (Rejected (SystemError code "open" f)), w') /\
    (fs_read_fault env (trace w) f = None -> code = "ENOENT") /\
    (forall fault, fs_read_fault env (trace w) f = Some fault -> code = fault) /\
    new_events w w' = [EvReadFile f (inl (SystemError code "open" f))] /\
    decrypt_requests (new_events w w') = [] /\
    files w' = files w.
Proof.
  intros Hf Hcase. rewrite read_cases, Hf. cbn zeta.
  unfold readFile_result.
  assert (Hnew : forall ev, new_events w (with_events [ev] w) = [ev]).
  { intros ev. unfold new_events, with_events. cbn [trace app length].
    replace (S (length (trace w)) - length (trace w)) with 1 by lia.
    reflexivity. }
  destruct (fs_read_fault env (trace w) f) as [fault|] eqn:Hfault.
  - exists fault. eexists. split; [reflexivity|].
    rewrite Hnew. repeat split; congruence.
  - destruct Hcase as [Hnone|[x Hx]]; [|discriminate].
    rewrite Hnone. exists "ENOENT". eexists. split; [reflexivity|].
    rewrite Hnew. repeat split; congruence.
Qed.

Lemma C5_witness :
  exists code w',
    read reversing_vault 0 sample_world
      = (Normal (Rejected (SystemError code "open" "/k")), w') /\
    (fs_read_fault reversing_vault (trace sample_world) "/k" = None ->
     code = "ENOENT") /\
    (forall fault, fs_read_fault reversing_vault (trace sample_world) "/k"
                   = Some fault -> code = fault) /\
    new_events sample_world w' = [EvReadFile "/k" (inl (SystemError code "open" "/k"))] /\
    decrypt_requests (new_events sample_world w') = [] /\
    files w' = files sample_world.
Proof.
  apply (C5_read_without_file_never_decrypts reversing_vault 0 "/k" sample_world).
  - vm_compute. reflexivity.
  - left. vm_compute. reflexivity.
Defined.

(** C8.  When the file exists and can be read, [read] sends exactly the
    bytes of the file as [CiphertextBlob] of one decrypt request; the
    promise is fulfilled with the [Plaintext] of the answer as it is, or
    rejected with the vault's own error when the request fails. *)
Theorem C8_read_decrypts_file_contents env this f c encrypted w :
  filepath (object_at w this) = Some f ->
  client (object_at w this) = Some c ->
  files w !! f = Some encrypted ->
  fs_read_fault env (trace w) f = None ->
  let got := EvReadFile f (inr encrypted) in
  let answer := kms_decrypt env (got :: trace w) c encrypted in
  exists w',
    read env this w = (Normal (settled answer), w') /\
    decrypt_requests (new_events w w') = [encrypted] /\
    new_events w w' =
      (match answer with
       | inl err => [decrypt_failure_log err]
       | inr _ => []
       end ++ [EvDecrypt c encrypted answer; got])%list /\
    files w' = files w.
Proof.
  intros Hf Hc Hfile Hfault got answer.
  rewrite read_cases, Hf, Hc. cbn zeta. unfold readFile_result.
  rewrite Hfault, Hfile. fold got. fold answer.
  assert (Hnew : forall evs, new_events w (with_events evs w) = evs).
  { intros evs. unfold new_events, with_events. cbn [trace].
    rewrite length_app.
    replace (length evs + length (trace w) - length (trace w)) with
      (length evs) by lia.
    apply take_app_length. }
  destruct answer as [err|Plaintext]; eexists; (split; [reflexivity|]);
    rewrite Hnew; repeat split.
Qed.

Lemma C8_witness :
  let got := EvReadFile "/k" (inr sentinel) in
  let answer :=
    kms_decrypt reversing_vault (got :: trace sample_world_with_file)
                (bound_client aws_options) sentinel in
  exists w',
    read reversing_vault 0 sample_world_with_file = (Normal (settled answer), w') /\
    decrypt_requests (new_events sample_world_with_file w') = [sentinel] /\
    new_events sample_world_with_file w' =
      (match answer with
       | inl err => [decrypt_failure_log err]
       | inr _ => []
       end ++ [EvDecrypt (bound_client aws_options) sentinel answer; got])%list /\
    files w' = files sample_world_with_file.
Proof.
  apply (C8_read_decrypts_file_contents reversing_vault 0 "/k"
           (bound_client aws_options) sentinel sample_world_with_file).
  - vm_compute. reflexivity.
  - vm_compute. reflexivity.
  - vm_compute. reflexivity.
  - reflexivity.
Defined.

(** ** Construction *)

(** [ToBoolean] is false exactly on [falsy_values]. *)
Lemma ToBoolean_false_iff v : ToBoolean v = false <-> In v falsy_values.
Proof.
  unfold falsy_values. cbn [In]. split.
  - destruct v as [[| |[]|[[]| | |]|z|s|]|]; cbn; try discriminate; auto 10.
    + destruct (Z.eqb_spec z 0) as [->|]; [auto 10|discriminate].
    + destruct (String.eqb_spec s EmptyString) as [->|]; [auto 10|discriminate].
  - intros H. repeat destruct H as [<-|H]; try reflexivity. destruct H.
Qed.

(** Any value that is not loosely equal to ['aws'] and can be converted
    to a String is refused, with the converted value in the message. *)
Lemma getServiceClient_refuses env provider options w s :
  loosely_equals_aws provider = false ->
  ToString env (ToPrimitive provider) = inr s ->
  getServiceClient env provider options w =
  (Thrown (Err ("Unsupported key vault provider: " ++ s)), w).
Proof.
  intros Hneq Hs. rewrite getServiceClient_cases, Hneq, Hs. reflexivity.
Qed.

(** A configuration without [provider] is refused: the identifier in the
    message is ["undefined"]. *)
Example constructor_without_provider :
  fst (constructor reversing_vault "/k" (delete "provider" aws_options) empty_world)
  = Thrown (Err "Unsupported key vault provider: undefined").
Proof. vm_compute. reflexivity. Qed.

(** The comparison is [==]: the one-element array [['aws']], whose
    primitive is the String ['aws'], is accepted. *)
Example getServiceClient_accepts_array :
  fst (getServiceClient reversing_vault (VObject (JString "aws")) aws_options empty_world)
  = Normal (bound_client aws_options).
Proof. vm_compute. reflexivity. Qed.

(** C3.  For every identifier other than ['aws'], the factory and the
    constructor throw an Error whose message carries the identifier; the
    factory leaves the world as it was, and all the constructor did before
    is one log line: no file was touched and no request was sent.  For
    ['aws'] the factory returns a client bound to the configured region,
    api-key and api-secret, and the constructor stores it. *)
Theorem C3_unrecognized_provider_is_refused env s f options w :
  s <> "aws" ->
  getServiceClient env (VPrim (JString s)) options w
    = (Thrown (Err ("Unsupported key vault provider: " ++ s)), w) /\
  (options !! "provider" = Some (VPrim (JString s)) ->
   exists w',
     constructor env f options w
       = (Thrown (Err ("Unsupported key vault provider: " ++ s)), w') /\
     files w' = files w /\
     trace w' = constructor_log f options :: trace w) /\
  getServiceClient env (VPrim (JString "aws")) options w
    = (Normal (mkKMS "2014-11-01" (prop options "region")
                     (prop options "api-key") (prop options "api-secret")),
       with_events [provider_log options] w) /\
  (options !! "provider" = Some (VPrim (JString "aws")) ->
   exists this w',
     constructor env f options w = (Normal this, w') /\
     client (object_at w' this)
       = Some (mkKMS "2014-11-01" (prop options "region")
                     (prop options "api-key") (prop options "api-secret")) /\
     files w' = files w).
Proof.
  intros Hs. apply String.eqb_neq in Hs.
  assert (Hneq : loosely_equals_aws (VPrim (JString s)) = false) by exact Hs.
  split; [|split; [|split]].
  - apply getServiceClient_refuses; [exact Hneq|reflexivity].
  - intros Hp. rewrite constructor_cases. unfold prop at 1 2. rewrite Hp.
    cbn [default from_option id ToPrimitive ToString]. cbn zeta.
    rewrite Hneq. eexists. split; [reflexivity|]. split; reflexivity.
  - rewrite getServiceClient_cases. reflexivity.
  - intros Hp. rewrite constructor_cases. unfold prop at 1. rewrite Hp.
    cbn [default from_option id]. cbn zeta.
    change (loosely_equals_aws (VPrim (JString "aws"))) with true.
    cbn iota. eexists. eexists. split; [reflexivity|].
    split; [|reflexivity].
    unfold object_at. cbn [heap]. rewrite lookup_insert_eq. reflexivity.
Qed.

Lemma C3_witness :
  let options := <["provider" := VPrim (JString "unknown-x")]> aws_options in
  getServiceClient reversing_vault (VPrim (JString "unknown-x")) options empty_world
    = (Thrown (Err "Unsupported key vault provider: unknown-x"), empty_world) /\
  exists w',
    constructor reversing_vault "/k" options empty_world
      = (Thrown (Err "Unsupported key vault provider: unknown-x"), w') /\
    files w' = files empty_world /\
    trace w' = constructor_log "/k" options :: trace empty_world.
Proof.
  intros options.
  destruct (C3_unrecognized_provider_is_refused reversing_vault "unknown-x"
              "/k" options empty_world) as (Hfactory & Hnew & _).
  - intros H. discriminate H.
  - split; [exact Hfactory|]. apply Hnew. vm_compute. reflexivity.
Defined.

(** C10.  The constructor tests the truthiness of [options['key-id']]:
    for [undefined] (also when the key is absent), [null], [false], [+0],
    [-0], [NaN], [0n] and the empty String the property [masterKeyId] is
    the String ['alias/kaleido']; for every other value it is the value
    itself. *)
Theorem C10_falsy_key_id_resolves_to_alias env f options w this w' :
  constructor env f options w = (Normal this, w') ->
  let key := prop options "key-id" in
  (options !! "key-id" = None -> key = VPrim JUndefined) /\
  (In key falsy_values ->
   masterKeyId (object_at w' this) = Some (VPrim (JString "alias/kaleido"))) /\
  (~ In key falsy_values -> masterKeyId (object_at w' this) = Some key).
Proof.
  intros Hnew key. rewrite constructor_cases in Hnew. cbn zeta in Hnew.
  destruct (loosely_equals_aws (prop options "provider")); [|discriminate].
  injection Hnew as <- <-.
  unfold object_at. cbn [heap]. rewrite lookup_insert_eq.
  cbn [default from_option id masterKeyId]. unfold resolved_key. fold key.
  split; [|split].
  - intros Habsent. unfold key, prop. rewrite Habsent. reflexivity.
  - intros Hfalsy. apply ToBoolean_false_iff in Hfalsy. rewrite Hfalsy.
    reflexivity.
  - intros Htruthy. destruct (ToBoolean key) eqn:Hb; [reflexivity|].
    apply ToBoolean_false_iff in Hb. contradiction.
Qed.

Lemma C10_witness :
  let key := prop aws_options "key-id" in
  (aws_options !! "key-id" = None -> key = VPrim JUndefined) /\
  (In key falsy_values ->
   masterKeyId (object_at sample_world 0) = Some (VPrim (JString "alias/kaleido"))) /\
  (~ In key falsy_values -> masterKeyId (object_at sample_world 0) = Some key).
Proof.
  apply (C10_falsy_key_id_resolves_to_alias reversing_vault "/k" aws_options
           empty_world 0 sample_world).
  vm_compute. reflexivity.
Defined.

(** ** Sequences of operations *)

Lemma new_events_app w w' evs :
  trace w' = (evs ++ trace w)%list -> new_events w w' = evs.
Proof.
  intros H. unfold new_events. rewrite H, length_app.
  replace (length evs + length (trace w) - length (trace w))
    with (length evs) by lia.
  apply take_app_length.
Qed.



(** Closes the goals of [run_op_effect] once the branch is known. *)
Ltac op_effect :=
  simplify_eq; eexists; unfold with_events; cbn [snd heap files trace];
  split; [try reflexivity; exact (eq_refl : _ = ([] ++ _)%list)|];
  split; [reflexivity|];
  cbn; split; [set_solver|]; split; [repeat constructor|];
  split; [tauto|exact I].

(** What one operation does to the world: the heap is as before, the
    trace grows, whatever is handed to [writeFile] is a blob that the key
    vault returned, and the key identifier of an encrypt request is the
    [masterKeyId] of the store. *)
Lemma run_op_effect env op w :
  exists evs,
    trace (snd (run_op env op w)) = (evs ++ trace w)%list /\
    heap (snd (run_op env op w)) = heap w /\
    disk_writes evs ⊆ vault_blobs evs /\
    Forall (fun k => k = default (VPrim JUndefined)
                           (masterKeyId (object_at w (op_this op))))
           (encrypt_keys evs) /\
    writes_follow_encrypt evs /\
    starts_without_write evs.
Proof.
  destruct op as [this plaintext|this]; unfold run_op; cbn [op_this].
  - rewrite write_cases. cbn zeta.
    repeat case_match; op_effect.
  - rewrite read_cases. cbn zeta.
    repeat case_match; op_effect.
Qed.

(** What one operation does to the file at [path].  Unless a [writeFile]
    on [path] failed during the writing, a [write] of a store bound to
    [path] whose promise is fulfilled leaves there the blob that the key
    vault returned to it, and anything else leaves the file alone.  In
    every case the file keeps its content or holds a prefix of a blob that
    the key vault returned during the operation, and an operation of a
    store that is not bound to [path] leaves the file alone. *)
Lemma run_op_file env path op w :
  (no_partial_write path (new_events w (snd (run_op env op w))) ->
   files (snd (run_op env op w)) !! path =
   match op, fst (run_op env op w) with
   | OpWrite this _, WriteOutcome (Normal (Fulfilled _)) =>
       if decide (filepath (object_at w this) = Some path)
       then head (vault_blobs (new_events w (snd (run_op env op w))))
       else files w !! path
   | _, _ => files w !! path
   end) /\
  (forall content,
     files (snd (run_op env op w)) !! path = Some content ->
     files w !! path = Some content \/
     exists blob,
       blob ∈ vault_blobs (new_events w (snd (run_op env op w))) /\
       content `prefix_of` blob) /\
  (filepath (object_at w (op_this op)) <> Some path ->
   files (snd (run_op env op w)) !! path = files w !! path).
Proof.
  destruct op as [this plaintext|this]; unfold run_op; cbn [op_this].
  - rewrite write_cases. cbn zeta.
    destruct (client (object_at w this)) as [c|]; [|by auto].
    destruct (kms_encrypt env (trace w) c _ plaintext) as [err|blob] eqn:Henc;
      [by auto|].
    destruct (filepath (object_at w this)) as [f|]; [|by auto].
    destruct (fs_write_fault env _ f) as [[code|code written]|];
      [by auto| |]; cbn [fst snd files];
      (erewrite new_events_app by (cbn [trace]; reflexivity));
      cbn [vault_blobs omap list_omap head].
    + split; [|split].
      * intros Hno. apply Forall_cons in Hno as [_ Hno].
        apply Forall_cons in Hno as [Hne _]. apply lookup_insert_ne. exact Hne.
      * intros content. destruct (decide (f = path)) as [->|Hne].
        -- rewrite lookup_insert_eq. intros [= <-]. right. exists blob.
           split; [apply list_elem_of_here|].
           exists (drop written blob). symmetry. apply take_drop.
        -- rewrite lookup_insert_ne by exact Hne. auto.
      * intros Hne. apply lookup_insert_ne. congruence.
    + split; [|split].
      * intros _. case_decide as Hpath.
        -- injection Hpath as ->. apply lookup_insert_eq.
        -- apply lookup_insert_ne. congruence.
      * intros content. destruct (decide (f = path)) as [->|Hne].
        -- rewrite lookup_insert_eq. intros [= <-]. right. exists blob.
           split; [apply list_elem_of_here|reflexivity].
        -- rewrite lookup_insert_ne by exact Hne. auto.
      * intros Hne. apply lookup_insert_ne. congruence.
  - rewrite read_cases. cbn zeta.
    repeat case_match; simplify_eq; by auto.
Qed.

Lemma run_ops_heap env ops :
  forall w, heap (run_ops env ops w) = heap w.
Proof.
  induction ops as [|op rest IH]; intros w; [reflexivity|].
  cbn [run_ops]. rewrite IH.
  destruct (run_op_effect env op w) as (evs & _ & Hheap & _). exact Hheap.
Qed.

Lemma object_at_same_heap w w' this :
  heap w' = heap w -> object_at w' this = object_at w this.
Proof. intros H. unfold object_at. rewrite H. reflexivity. Qed.







(** The sequence of the witness ends with the file holding the reversed
    bytes of the last plaintext. *)
Example last_written_sample :
  last_written reversing_vault "/k"
    [OpRead 0; OpWrite 0 sample_bytes; OpRead 0; OpWrite 0 sentinel]
    sample_world None
  = Some (rev sentinel).
Proof. vm_compute. reflexivity. Qed.



(** With [key-id] set to ['custom-key'] that String is the [KeyId] of the
    encrypt request. *)
Example custom_key_is_sent :
  encrypt_keys
    (trace (run_ops reversing_vault [OpWrite 0 sample_bytes]
              (snd (constructor reversing_vault "/k"
                      (<["key-id" := VPrim (JString "custom-key")]> aws_options)
                      empty_world))))
  = [VPrim (JString "custom-key")].
Proof. vm_compute. reflexivity. Qed.

(** C9.  No [read] and no [write] assigns a property of any object: after
    any sequence of operations the store that the constructor returned
    still has the filepath, the client and the masterKeyId that the
    constructor gave it. *)
Theorem C9_bindings_are_never_reassigned env f options w this w' ops :
  constructor env f options w = (Normal this, w') ->
  heap (run_ops env ops w') = heap w' /\
  heap (run_ops env ops w') !! this
  = Some (mkInstance (Some f) (Some (bound_client options))
                     (Some (resolved_key options))).
Proof.
  intros Hnew. rewrite run_ops_heap. split; [reflexivity|].
  rewrite constructor_cases in Hnew. cbn zeta in Hnew.
  destruct (loosely_equals_aws (prop options "provider")); [|discriminate].
  injection Hnew as <- <-. cbn [heap]. apply lookup_insert_eq.
Qed.

Lemma C9_witness :
  heap (run_ops reversing_vault [OpWrite 0 sample_bytes; OpRead 0] sample_world)
  = heap sample_world /\
  heap (run_ops reversing_vault [OpWrite 0 sample_bytes; OpRead 0] sample_world) !! 0
  = Some (mkInstance (Some "/k") (Some (bound_client aws_options))
                     (Some (resolved_key aws_options))).
Proof.
  apply (C9_bindings_are_never_reassigned reversing_vault "/k" aws_options
           empty_world 0 sample_world).
  vm_compute. reflexivity.
Defined.

(** * Further properties of the module *)

(** ** The factory and the constructor *)

(** X1.  The factory, and with it the constructor, succeeds exactly when
    the primitive of the provider is the String ['aws']: the comparison is
    [==], so an object that converts to ['aws'] passes, and nothing else
    about the configuration is looked at. *)
Theorem construction_succeeds_iff_provider_is_aws env f provider options w :
  ((exists c w', getServiceClient env provider options w = (Normal c, w'))
   <-> ToPrimitive provider = JString "aws") /\
  ((exists this w', constructor env f options w = (Normal this, w'))
   <-> ToPrimitive (prop options "provider") = JString "aws").
Proof.
  assert (Heq : forall v, loosely_equals_aws v = true
                          <-> ToPrimitive v = JString "aws").
  { intros v. unfold loosely_equals_aws, prim_loosely_equals_aws.
    destruct (ToPrimitive v); try (split; discriminate).
    rewrite String.eqb_eq. split; congruence. }
  split.
  - rewrite getServiceClient_cases, <- Heq.
    destruct (loosely_equals_aws provider).
    + split; [reflexivity|]. intros _. eexists. eexists. reflexivity.
    + split; [|discriminate]. intros (c & w' & H).
      destruct (ToString env (ToPrimitive provider)); discriminate.
  - rewrite constructor_cases, <- Heq. cbn zeta.
    destruct (loosely_equals_aws (prop options "provider")).
    + split; [reflexivity|]. intros _. eexists. eexists. reflexivity.
    + split; [|discriminate]. intros (c & w' & H). discriminate.
Qed.

(** X2.  A configuration without [provider] is refused, whatever else it
    holds: the constructor throws the Error for the identifier
    ['undefined'] and touches no file. *)
Theorem constructor_without_provider_throws env f options w :
  options !! "provider" = None ->
  exists w',
    constructor env f options w
      = (Thrown (Err "Unsupported key vault provider: undefined"), w') /\
    files w' = files w /\
    trace w' = constructor_log f options :: trace w.
Proof.
  intros Hnone. rewrite constructor_cases. unfold prop at 1 2.
  rewrite Hnone. cbn. eexists. repeat split.
Qed.

Lemma constructor_without_provider_throws_witness :
  exists w',
    constructor refusing_vault "/k" (delete "provider" custom_options) sample_world
      = (Thrown (Err "Unsupported key vault provider: undefined"), w') /\
    files w' = files sample_world /\
    trace w' = constructor_log "/k" (delete "provider" custom_options)
               :: trace sample_world.
Proof.
  apply (constructor_without_provider_throws refusing_vault "/k"
           (delete "provider" custom_options) sample_world).
  vm_compute. reflexivity.
Defined.

(** X3.  Whether it returns or throws, the constructor only writes log
    lines and allocates one object at a location that was free: no file
    changes, no request is sent, and every object that existed before is
    as it was. *)
Theorem constructor_only_logs_and_allocates env f options w :
  let w' := snd (constructor env f options w) in
  files w' = files w /\
  (exists evs, trace w' = (evs ++ trace w)%list /\ Forall is_log evs) /\
  (forall l, is_Some (heap w !! l) -> heap w' !! l = heap w !! l) /\
  (forall this, fst (constructor env f options w) = Normal this ->
                heap w !! this = None /\ is_Some (heap w' !! this)).
Proof.
  rewrite constructor_cases. cbn zeta.
  assert (Hfresh : heap w !! fresh (dom (heap w)) = None).
  { apply not_elem_of_dom. apply is_fresh. }
  assert (Hold : forall l o, is_Some (heap w !! l) ->
                 <[fresh (dom (heap w)) := o]> (heap w) !! l = heap w !! l).
  { intros l o [x Hx]. apply lookup_insert_ne. congruence. }
  destruct (loosely_equals_aws (prop options "provider")); cbn [fst snd].
  - split; [reflexivity|]. split; [|split].
    + exists [provider_log options; constructor_log f options].
      split; [reflexivity|]. repeat constructor.
    + intros l Hl. apply Hold, Hl.
    + intros this [= <-]. split; [exact Hfresh|].
      cbn [heap]. rewrite lookup_insert_eq. eauto.
  - split; [reflexivity|]. split; [|split].
    + exists [constructor_log f options]. split; [reflexivity|].
      repeat constructor.
    + intros l Hl. apply Hold, Hl.
    + intros this H. discriminate H.
Qed.

(** X4.  When the provider is accepted, the whole [options] bag is handed
    to [logger.info]: a configured [api-secret] ends up in the log. *)
Theorem constructor_logs_api_secret env f options w this w' secret :
  constructor env f options w = (Normal this, w') ->
  options !! "api-secret" = Some secret ->
  exists args logged,
    In (EvLog INFO args) (new_events w w') /\
    In (LOptions logged) args /\
    logged !! "api-secret" = Some secret.
Proof.
  intros Hnew Hsecret. rewrite constructor_cases in Hnew. cbn zeta in Hnew.
  destruct (loosely_equals_aws (prop options "provider")); [|discriminate].
  injection Hnew as <- <-.
  erewrite new_events_app
    by (cbn [trace];
        exact (eq_refl : _ = ([provider_log options; constructor_log f options]
                              ++ trace w)%list)).
  eexists. exists options. split; [left; reflexivity|].
  split; [right; left; reflexivity|exact Hsecret].
Qed.

Lemma constructor_logs_api_secret_witness :
  exists args logged,
    In (EvLog INFO args) (new_events empty_world sample_world) /\
    In (LOptions logged) args /\
    logged !! "api-secret" = Some (VPrim (JString "secret")).
Proof.
  apply (constructor_logs_api_secret reversing_vault "/k" aws_options
           empty_world 0 sample_world (VPrim (JString "secret"))).
  - vm_compute. reflexivity.
  - vm_compute. reflexivity.
Defined.

(** ** One call of [write] or [read] *)

(** X5.  A fulfilled [write] did exactly this: one encrypt request for the
    plaintext under the store's key, then one [writeFile] that replaced
    the content of the store's file by the returned blob; every other file
    and every object is as before. *)
Theorem write_fulfilled_replaces_file env this plaintext w w' :
  write env this plaintext w = (Normal (Fulfilled tt), w') ->
  exists f c blob,
    filepath (object_at w this) = Some f /\
    client (object_at w this) = Some c /\
    let k := default (VPrim JUndefined) (masterKeyId (object_at w this)) in
    kms_encrypt env (trace w) c k plaintext = inr blob /\
    files w' = <[f := blob]> (files w) /\
    heap w' = heap w /\
    new_events w w' = [EvWriteFile f blob None; EvEncrypt c k plaintext (inr blob)].
Proof.
  intros H. rewrite write_cases in H. cbn zeta in H.
  destruct (client (object_at w this)) as [c|]; [|discriminate].
  destruct (kms_encrypt env (trace w) c _ plaintext) as [err|blob] eqn:Henc;
    [discriminate|].
  destruct (filepath (object_at w this)) as [f|]; [|discriminate].
  destruct (fs_write_fault env _ f) as [[code|code written]|];
    [discriminate|discriminate|].
  injection H as <-. exists f, c, blob. cbn zeta.
  split; [reflexivity|]. split; [reflexivity|]. split; [exact Henc|].
  split; [reflexivity|]. split; [reflexivity|].
  apply new_events_app. reflexivity.
Qed.

Lemma write_fulfilled_replaces_file_witness :
  exists f c blob,
    filepath (object_at sample_world_with_file 0) = Some f /\
    client (object_at sample_world_with_file 0) = Some c /\
    let k := default (VPrim JUndefined)
               (masterKeyId (object_at sample_world_with_file 0)) in
    kms_encrypt reversing_vault (trace sample_world_with_file) c k sample_bytes
      = inr blob /\
    files (snd (write reversing_vault 0 sample_bytes sample_world_with_file))
      = <[f := blob]> (files sample_world_with_file) /\
    heap (snd (write reversing_vault 0 sample_bytes sample_world_with_file))
      = heap sample_world_with_file /\
    new_events sample_world_with_file
      (snd (write reversing_vault 0 sample_bytes sample_world_with_file))
      = [EvWriteFile f blob None; EvEncrypt c k sample_bytes (inr blob)].
Proof.
  apply (write_fulfilled_replaces_file reversing_vault 0 sample_bytes
           sample_world_with_file).
  vm_compute. reflexivity.
Defined.

(** X6.  For a constructed store, the promise of [write] stays pending
    exactly when the key vault answered and [writeFile] failed.  The
    filesystem's error is then the one unhandled rejection; after a
    failure at the open no file has changed, after a failure during the
    writing the store's file holds the bytes of the blob that were
    written and every other file is as before.  In every other case
    there is no unhandled rejection. *)
Theorem write_pending_iff_writeFile_failed env this f c k plaintext w :
  heap w !! this = Some (mkInstance (Some f) (Some c) (Some k)) ->
  let r := write env this plaintext w in
  (fst r = Normal Pending <->
   exists blob fault,
     kms_encrypt env (trace w) c k plaintext = inr blob /\
     fs_write_fault env (EvEncrypt c k plaintext (inr blob) :: trace w) f
       = Some fault) /\
  (forall blob fault,
     kms_encrypt env (trace w) c k plaintext = inr blob ->
     fs_write_fault env (EvEncrypt c k plaintext (inr blob) :: trace w) f
       = Some fault ->
     match fault with
     | AtOpen code =>
         files (snd r) = files w /\
         unhandled_rejections (new_events w (snd r))
         = [SystemError code "open" f]
     | WhileWriting code written =>
         files (snd r) = <[f := take written blob]> (files w) /\
         unhandled_rejections (new_events w (snd r))
         = [SystemCallError code "write"]
     end) /\
  (fst r <> Normal Pending -> unhandled_rejections (new_events w (snd r)) = []).
Proof.
  intros Hobj r. subst r. rewrite write_cases. read_object Hobj. cbn zeta.
  destruct (kms_encrypt env (trace w) c k plaintext) as [err|blob] eqn:Henc.
  - cbn [fst snd]. split; [|split].
    + split; [discriminate|]. intros (blob & fault & Hb & _). discriminate.
    + intros blob fault Hb. discriminate.
    + intros _. erewrite new_events_app by reflexivity. reflexivity.
  - destruct (fs_write_fault env _ f) as [[code|code written]|] eqn:Hfault;
      cbn [fst snd].
    + split; [|split].
      * split; [|reflexivity]. intros _. exists blob. eexists.
        split; [reflexivity|]. exact Hfault.
      * intros blob' fault [= <-]. rewrite Hfault. intros [= <-].
        split; [reflexivity|].
        erewrite new_events_app by reflexivity. reflexivity.
      * intros H. contradiction.
    + split; [|split].
      * split; [|reflexivity]. intros _. exists blob. eexists.
        split; [reflexivity|]. exact Hfault.
      * intros blob' fault [= <-]. rewrite Hfault. intros [= <-].
        split; [reflexivity|].
        erewrite new_events_app by reflexivity. reflexivity.
      * intros H. contradiction.
    + split; [|split].
      * split; [discriminate|]. intros (blob' & fault & Hb & Hc).
        injection Hb as <-. rewrite Hfault in Hc. discriminate.
      * intros blob' fault [= <-]. rewrite Hfault. discriminate.
      * intros _. erewrite new_events_app by reflexivity. reflexivity.
Qed.

Lemma write_pending_iff_writeFile_failed_witness :
  let w := snd (write filling_disk 0 sample_bytes sample_world) in
  let r := write filling_disk 0 sentinel w in
  fst r = Normal Pending /\
  files (snd r) = <["/k" := take 1 (rev sentinel)]> (files w) /\
  unhandled_rejections (new_events w (snd r)) = [SystemCallError "ENOSPC" "write"].
Proof.
  intros w r.
  destruct (write_pending_iff_writeFile_failed filling_disk 0 "/k"
              (bound_client aws_options) (VPrim (JString "alias/kaleido"))
              sentinel w) as (Hiff & Hthen & _).
  - vm_compute. reflexivity.
  - split.
    + apply Hiff. exists (rev sentinel), (WhileWriting "ENOSPC" 1).
      split; reflexivity.
    + apply (Hthen (rev sentinel) (WhileWriting "ENOSPC" 1)); reflexivity.
Defined.

(** X7.  [read] always settles: its promise is fulfilled or rejected,
    never pending; it changes no file and no object and leaves no
    unhandled rejection. *)
Theorem read_always_settles env this w :
  exists r w',
    read env this w = (Normal r, w') /\
    r <> Pending /\
    files w' = files w /\
    heap w' = heap w /\
    unhandled_rejections (new_events w w') = [].
Proof.
  rewrite read_cases. cbn zeta.
  destruct (filepath (object_at w this)) as [f|].
  2:{ eexists. eexists. split; [reflexivity|]. repeat split; [discriminate|].
      erewrite new_events_app by exact (eq_refl : _ = ([] ++ _)%list).
      reflexivity. }
  destruct (readFile_result env w f) as [e|encrypted].
  { eexists. eexists. split; [reflexivity|]. repeat split; [discriminate|].
    erewrite new_events_app by reflexivity. reflexivity. }
  destruct (client (object_at w this)) as [c|].
  2:{ eexists. eexists. split; [reflexivity|]. repeat split; [discriminate|].
      erewrite new_events_app by reflexivity. reflexivity. }
  destruct (kms_decrypt env _ c encrypted) as [err|Plaintext];
    eexists; eexists; (split; [reflexivity|]); (repeat split; [discriminate|]);
    erewrite new_events_app by reflexivity; reflexivity.
Qed.

(** X8.  A fulfilled [read] returns what the key vault answered to a
    decrypt request for the present content of the store's file: the file
    exists, was read without fault, and its bytes are what was sent. *)
Theorem read_fulfilled_from_file env this w plaintext w' :
  read env this w = (Normal (Fulfilled plaintext), w') ->
  exists f c encrypted,
    filepath (object_at w this) = Some f /\
    client (object_at w this) = Some c /\
    files w !! f = Some encrypted /\
    fs_read_fault env (trace w) f = None /\
    kms_decrypt env (EvReadFile f (inr encrypted) :: trace w) c encrypted
      = inr plaintext.
Proof.
  intros H. rewrite read_cases in H. cbn zeta in H.
  destruct (filepath (object_at w this)) as [f|]; [|discriminate].
  unfold readFile_result in H.
  destruct (fs_read_fault env (trace w) f) as [code|] eqn:Hfault;
    [discriminate|].
  destruct (files w !! f) as [encrypted|] eqn:Hfile; [|discriminate].
  destruct (client (object_at w this)) as [c|]; [|discriminate].
  destruct (kms_decrypt env _ c encrypted) as [err|p] eqn:Hdec; [discriminate|].
  injection H as <- _. exists f, c, encrypted. repeat split; assumption.
Qed.

Lemma read_fulfilled_from_file_witness :
  exists f c encrypted,
    filepath (object_at sample_world_with_file 0) = Some f /\
    client (object_at sample_world_with_file 0) = Some c /\
    files sample_world_with_file !! f = Some encrypted /\
    fs_read_fault reversing_vault (trace sample_world_with_file) f = None /\
    kms_decrypt reversing_vault
      (EvReadFile f (inr encrypted) :: trace sample_world_with_file) c encrypted
      = inr (rev sentinel).
Proof.
  apply (read_fulfilled_from_file reversing_vault 0 sample_world_with_file
           (rev sentinel)
           (snd (read reversing_vault 0 sample_world_with_file))).
  vm_compute. reflexivity.
Defined.

(** X9.  [read] does not look at [masterKeyId]: two stores with the same
    file and the same client read the same, whatever their keys. *)
Theorem read_ignores_masterKeyId env a b w :
  filepath (object_at w a) = filepath (object_at w b) ->
  client (object_at w a) = client (object_at w b) ->
  read env a w = read env b w.
Proof.
  intros Hf Hc. rewrite !read_cases, Hf, Hc. reflexivity.
Qed.

Lemma read_ignores_masterKeyId_witness :
  read reversing_vault 0 two_stores_world = read reversing_vault 1 two_stores_world.
Proof.
  apply (read_ignores_masterKeyId reversing_vault 0 1 two_stores_world).
  - vm_compute. reflexivity.
  - vm_compute. reflexivity.
Defined.

(** ** Sequences: requests, files of other stores, composition *)

Lemma count_events_app p a b :
  count_events p (a ++ b) = count_events p a + count_events p b.
Proof. unfold count_events. rewrite List.filter_app. apply length_app. Qed.

Lemma starts_without_decrypt_app a b :
  starts_without_decrypt a -> starts_without_decrypt b ->
  starts_without_decrypt (a ++ b).
Proof.
  unfold starts_without_decrypt. intros Ha Hb.
  destruct b as [|x b] using rev_ind; [rewrite app_nil_r; exact Ha|].
  rewrite app_assoc, last_snoc. rewrite last_snoc in Hb. exact Hb.
Qed.

Lemma decrypts_follow_read_app a b :
  decrypts_follow_read a -> starts_without_decrypt a ->
  decrypts_follow_read b ->
  decrypts_follow_read (a ++ b).
Proof.
  intros Ha Hlast Hb. induction a as [|x a IH]; [exact Hb|].
  assert (Htail : starts_without_decrypt a).
  { destruct a as [|y a]; [exact I|exact Hlast]. }
  destruct x; cbn [app decrypts_follow_read] in *; auto.
  destruct Ha as [Hhead Ha]. split; [|auto].
  destruct a as [|y a]; [destruct Hhead|exact Hhead].
Qed.

(** Closes the goals of [run_op_requests] once the branch is known. *)
Ltac op_requests :=
  simplify_eq;
  try solve
    [ eexists; unfold with_events; cbn [snd heap files trace];
      split; [try reflexivity; exact (eq_refl : _ = ([] ++ _)%list)|];
      cbn; repeat split; try lia; try tauto; set_solver ].

(** One operation sends at most one request to the key vault and makes at
    most one call of the filesystem; a decrypt request carries the bytes
    just read, an encrypt request the plaintext of the operation. *)
Lemma run_op_requests env op w :
  exists evs,
    trace (snd (run_op env op w)) = (evs ++ trace w)%list /\
    count_events is_vault_request evs <= 1 /\
    count_events is_fs_call evs <= 1 /\
    (decrypts_follow_read evs /\ starts_without_decrypt evs) /\
    encrypt_plaintexts evs ⊆ write_plaintexts [op].
Proof.
  destruct op as [this plaintext|this]; unfold run_op.
  - rewrite write_cases. cbn zeta. repeat case_match; op_requests.
  - rewrite read_cases. cbn zeta. unfold readFile_result.
    repeat case_match; op_requests.
Qed.

Lemma run_ops_requests env ops :
  forall w, exists evs,
    trace (run_ops env ops w) = (evs ++ trace w)%list /\
    count_events is_vault_request evs <= length ops /\
    count_events is_fs_call evs <= length ops /\
    (decrypts_follow_read evs /\ starts_without_decrypt evs) /\
    encrypt_plaintexts evs ⊆ write_plaintexts ops.
Proof.
  induction ops as [|op rest IH]; intros w.
  - exists []. cbn. repeat split; try lia; set_solver.
  - cbn [run_ops].
    destruct (run_op_requests env op w)
      as (evs1 & Htr1 & Hv1 & Hf1 & [Hd1 Hs1] & Hp1).
    destruct (IH (snd (run_op env op w)))
      as (evs2 & Htr2 & Hv2 & Hf2 & [Hd2 Hs2] & Hp2).
    exists (evs2 ++ evs1)%list. split; [|split; [|split; [|split]]].
    + rewrite Htr2, Htr1. apply app_assoc.
    + rewrite count_events_app. cbn [length]. lia.
    + rewrite count_events_app. cbn [length]. lia.
    + split; [apply decrypts_follow_read_app|apply starts_without_decrypt_app];
        assumption.
    + unfold encrypt_plaintexts, write_plaintexts in *.
      rewrite omap_app. change (op :: rest) with ([op] ++ rest)%list.
      rewrite omap_app.
      intros x [Hx|Hx]%elem_of_app; apply elem_of_app;
        [right; apply Hp2|left; apply Hp1]; exact Hx.
Qed.

(** X10.  No retry, no extra traffic: a sequence of operations sends at
    most one request to the key vault and makes at most one call of the
    filesystem per operation. *)
Theorem at_most_one_request_per_operation env ops w :
  count_events is_vault_request (new_events w (run_ops env ops w)) <= length ops /\
  count_events is_fs_call (new_events w (run_ops env ops w)) <= length ops.
Proof.
  destruct (run_ops_requests env ops w) as (evs & Htr & Hv & Hf & _).
  rewrite (new_events_app _ _ _ Htr). split; assumption.
Qed.

(** X11.  Whatever the operations, the key vault is asked to decrypt only
    bytes that were just read from a file, and to encrypt only plaintexts
    that a caller passed to [write]. *)
Theorem vault_sees_only_files_and_plaintexts env ops w :
  decrypts_follow_read (new_events w (run_ops env ops w)) /\
  encrypt_plaintexts (new_events w (run_ops env ops w)) ⊆ write_plaintexts ops.
Proof.
  destruct (run_ops_requests env ops w) as (evs & Htr & _ & _ & [Hd _] & Hp).
  rewrite (new_events_app _ _ _ Htr). split; assumption.
Qed.

(** X12.  Operations on stores that are not bound to [path] leave the
    file at [path] alone, whether they succeed or fail. *)
Theorem files_of_other_stores_untouched env path ops :
  forall w,
    Forall (fun op => filepath (object_at w (op_this op)) <> Some path) ops ->
    files (run_ops env ops w) !! path = files w !! path.
Proof.
  induction ops as [|op rest IH]; intros w Hall; [reflexivity|].
  apply Forall_cons in Hall as [Hop Hrest]. cbn [run_ops].
  destruct (run_op_effect env op w) as (evs & _ & Hheap & _).
  rewrite IH.
  - destruct (run_op_file env path op w) as (_ & _ & Hother).
    apply Hother, Hop.
  - eapply Forall_impl; [exact Hrest|]. intros op' Hop'. cbn beta in *.
    rewrite (object_at_same_heap _ _ _ Hheap). exact Hop'.
Qed.

Lemma files_of_other_stores_untouched_witness :
  files (run_ops reversing_vault [OpWrite 0 sample_bytes; OpRead 1; OpWrite 1 sentinel]
           two_stores_world) !! "/other"
  = files two_stores_world !! "/other".
Proof.
  apply (files_of_other_stores_untouched reversing_vault "/other"
           [OpWrite 0 sample_bytes; OpRead 1; OpWrite 1 sentinel]
           two_stores_world).
  repeat constructor; vm_compute; discriminate.
Defined.

(** With a faithful environment, [write] on a constructed store is
    fulfilled and leaves in the file a blob that decrypts to the
    plaintext. *)
Lemma write_fulfilled_when_faithful env this f c k w plaintext :
  faithful_vault env ->
  faithful_filesystem env ->
  heap w !! this = Some (mkInstance (Some f) (Some c) (Some k)) ->
  exists blob w',
    write env this plaintext w = (Normal (Fulfilled tt), w') /\
    heap w' = heap w /\
    files w' = <[f := blob]> (files w) /\
    forall history, kms_decrypt env history c blob = inr plaintext.
Proof.
  intros Hvault Hfs Hobj.
  destruct (Hvault (trace w) c k plaintext) as (blob & Henc & Hdec).
  rewrite write_cases. read_object Hobj. cbn zeta. rewrite Henc.
  destruct (Hfs (EvEncrypt c k plaintext (inr blob) :: trace w) f) as [-> _].
  exists blob. eexists. repeat split. exact Hdec.
Qed.

(** With a filesystem without faults, [read] on a store whose file holds
    a blob that decrypts to [plaintext] is fulfilled with [plaintext]. *)
Lemma read_fulfilled_when_faithful env this f c k w blob plaintext :
  faithful_filesystem env ->
  heap w !! this = Some (mkInstance (Some f) (Some c) k) ->
  files w !! f = Some blob ->
  (forall history, kms_decrypt env history c blob = inr plaintext) ->
  exists w', read env this w = (Normal (Fulfilled plaintext), w').
Proof.
  intros Hfs Hobj Hfile Hdec. rewrite read_cases.
  rewrite (object_at_lookup _ _ _ Hobj). cbn [filepath client]. cbn zeta.
  unfold readFile_result. destruct (Hfs (trace w) f) as [_ ->].
  rewrite Hfile, Hdec. eexists. reflexivity.
Qed.

(** X13.  What one store wrote, another store on the same file with the
    same client reads back, even when the two were configured with
    different keys: the key is not needed to decrypt. *)
Theorem another_store_reads_what_was_written env a b f c ka kb w plaintext :
  faithful_vault env ->
  faithful_filesystem env ->
  heap w !! a = Some (mkInstance (Some f) (Some c) (Some ka)) ->
  heap w !! b = Some (mkInstance (Some f) (Some c) kb) ->
  exists w1 w2,
    write env a plaintext w = (Normal (Fulfilled tt), w1) /\
    read env b w1 = (Normal (Fulfilled plaintext), w2).
Proof.
  intros Hvault Hfs Ha Hb.
  destruct (write_fulfilled_when_faithful env a f c ka w plaintext Hvault Hfs Ha)
    as (blob & w1 & Hwrite & Hheap & Hfiles & Hdec).
  destruct (read_fulfilled_when_faithful env b f c kb w1 blob plaintext Hfs)
    as (w2 & Hread).
  - rewrite Hheap. exact Hb.
  - rewrite Hfiles. apply lookup_insert_eq.
  - exact Hdec.
  - exists w1, w2. split; assumption.
Qed.

Lemma another_store_reads_what_was_written_witness :
  exists w1 w2,
    write reversing_vault 1 sample_bytes two_stores_world
      = (Normal (Fulfilled tt), w1) /\
    read reversing_vault 0 w1 = (Normal (Fulfilled sample_bytes), w2).
Proof.
  apply (another_store_reads_what_was_written reversing_vault 1 0 "/k"
           (bound_client aws_options) (VPrim (JString "custom-key"))
           (Some (VPrim (JString "alias/kaleido")))).
  - intros history c k plaintext. exists (rev plaintext). split; [reflexivity|].
    intros history'. cbn. rewrite rev_involutive. reflexivity.
  - intros history f. split; reflexivity.
  - vm_compute. reflexivity.
  - vm_compute. reflexivity.
Defined.

(** X14.  The last write wins: after two fulfilled writes on a store the
    following [read] returns the second plaintext, nothing of the first
    is left in the file. *)
Theorem last_write_wins env this f c k w first second :
  faithful_vault env ->
  faithful_filesystem env ->
  heap w !! this = Some (mkInstance (Some f) (Some c) (Some k)) ->
  exists w1 w2 w3,
    write env this first w = (Normal (Fulfilled tt), w1) /\
    write env this second w1 = (Normal (Fulfilled tt), w2) /\
    read env this w2 = (Normal (Fulfilled second), w3) /\
    forall blob, files w2 !! f = Some blob ->
                 forall history, kms_decrypt env history c blob = inr second.
Proof.
  intros Hvault Hfs Hobj.
  destruct (write_fulfilled_when_faithful env this f c k w first Hvault Hfs Hobj)
    as (blob1 & w1 & Hwrite1 & Hheap1 & Hfiles1 & _).
  rewrite <- Hheap1 in Hobj.
  destruct (write_fulfilled_when_faithful env this f c k w1 second Hvault Hfs Hobj)
    as (blob2 & w2 & Hwrite2 & Hheap2 & Hfiles2 & Hdec2).
  rewrite <- Hheap2 in Hobj.
  assert (Hfile : files w2 !! f = Some blob2).
  { rewrite Hfiles2. apply lookup_insert_eq. }
  destruct (read_fulfilled_when_faithful env this f c (Some k) w2 blob2 second
              Hfs Hobj Hfile Hdec2) as (w3 & Hread).
  exists w1, w2, w3. repeat split; try assumption.
  intros blob Hblob. rewrite Hfile in Hblob. injection Hblob as <-. exact Hdec2.
Qed.

Lemma last_write_wins_witness :
  exists w1 w2 w3,
    write reversing_vault 0 sample_bytes sample_world
      = (Normal (Fulfilled tt), w1) /\
    write reversing_vault 0 sentinel w1 = (Normal (Fulfilled tt), w2) /\
    read reversing_vault 0 w2 = (Normal (Fulfilled sentinel), w3) /\
    forall blob, files w2 !! "/k" = Some blob ->
                 forall history,
                   kms_decrypt reversing_vault history (bound_client aws_options) blob
                   = inr sentinel.
Proof.
  apply (last_write_wins reversing_vault 0 "/k" (bound_client aws_options)
           (VPrim (JString "alias/kaleido")) sample_world sample_bytes sentinel).
  - intros history c k plaintext. exists (rev plaintext). split; [reflexivity|].
    intros history'. cbn. rewrite rev_involutive. reflexivity.
  - intros history f. split; reflexivity.
  - vm_compute. reflexivity.
Defined.
